(** * JoinNetwork: the peer-list page of the minicoin React front end

    A shallow embedding of [src/react-app/src/pages/JoinNetwork/index.js].

    The component owns two state fields ([urls], [url]), issues two HTTP
    calls through [fetch] and builds a React element tree in [render].  The
    asynchronous parts (promise callbacks) are modelled by explicit state
    passing over a [world]: the component state, the text of the uncontrolled
    form control, the submit event objects created so far, the log of
    [fetch] calls with their attached callbacks, and the console.

    Platform conventions used by the model (none of them is in the source
    file, all of them are the documented behaviour of the platform):
    - [fetch] rejects only on a network failure; any HTTP status fulfils it;
    - [res.json()] rejects when the body is not JSON;
    - [promise.then(f)] with one argument runs [f] on fulfilment only;
    - [setState(partial)] merges [partial] into the state;
    - [form.reset()] puts the control back to its default (empty) text and
      fires no change event;
    - [componentDidMount] runs once, and no user event precedes it;
    - an event object stays usable after its handler returned.
    What the browser does with a submit event that is not cancelled when
    its handler returns is outside the component and is not modelled; the
    model records when [preventDefault] is called and on which event. *)

From Stdlib Require Import Ascii String NArith ZArith.
From stdpp Require Import base list strings.

Set Warnings "-register-all".

Open Scope string_scope.
Open Scope list_scope.

(** ** JSON values and serialisation *)

Module JSON.

(** What [res.json()] can deliver.  Numbers are kept as integers: the
    component never looks inside one. *)
Inductive json : Type :=
| JNull
| JBool (b : bool)
| JNum (n : Z)
| JStr (s : string)
| JArr (items : list json)
| JObj (members : list (string * json)).

Definition dquote : ascii := "034"%char.
Definition backslash : ascii := "092"%char.

Definition hex_digit (n : N) : ascii :=
  if (n <? 10)%N then ascii_of_N (48 + n) else ascii_of_N (87 + n).

(** [\u00XX], lower-case hexadecimal, for a control character. *)
Definition unicode_escape (n : N) : string :=
  String backslash
    (String "u" (String "0" (String "0"
      (String (hex_digit (n / 16)) (String (hex_digit (n mod 16)) EmptyString))))).

(** One character of ECMAScript's QuoteJSONString.  A string is its UTF-8
    bytes; bytes from 128 up belong to a non-ASCII character and pass
    through unchanged. *)
Definition quote_char (c : ascii) : string :=
  let n := N_of_ascii c in
  if (n =? 8)%N then String backslash "b"
  else if (n =? 9)%N then String backslash "t"
  else if (n =? 10)%N then String backslash "n"
  else if (n =? 12)%N then String backslash "f"
  else if (n =? 13)%N then String backslash "r"
  else if (n =? 34)%N then String backslash (String dquote EmptyString)
  else if (n =? 92)%N then String backslash (String backslash EmptyString)
  else if (n <? 32)%N then unicode_escape n
  else String c EmptyString.

Fixpoint quote_chars (s : string) : string :=
  match s with
  | EmptyString => EmptyString
  | String c rest => quote_char c +:+ quote_chars rest
  end.

Definition QuoteJSONString (s : string) : string :=
  String dquote (quote_chars s +:+ String dquote EmptyString).

(** The object literal [{url: this.state.url}] of [join_network]. *)
Record join_body : Type := JoinBody { body_url : string }.

(** [JSON.stringify] on such an object: one member, no white space. *)
Definition stringify (b : join_body) : string :=
  "{" +:+ QuoteJSONString "url" +:+ ":" +:+ QuoteJSONString (body_url b) +:+ "}".

End JSON.

Import JSON.

(** ** HTTP through [fetch] *)

Record request : Type := Request {
  path : string;
  method : string;
  body : option string;
  headers : list (string * string)
}.

(** How an in-flight [fetch] ends.  [parsed] is what [res.json()] makes of
    the body: [None] when it is not JSON. *)
Inductive outcome : Type :=
| Rejected
| Fulfilled (status : nat) (parsed : option json).

(** The callback chain attached to a [fetch] promise.  [K_join_network ev]
    closes over the submit event object [ev]. *)
Inductive callback : Type :=
| K_get_peers
| K_join_network (ev : nat).

Record fetch_call : Type := FetchCall {
  sent : request;
  on_settle : callback;
  pending : bool
}.

(** ** The component *)

(** [state = { urls: [], url: '' }].  [urls] holds whatever [setState] was
    given, an array or not. *)
Record state : Type := State {
  urls : json;
  url : string
}.

Definition initial_state : state := {| urls := JArr []; url := "" |}.

Record world : Type := World {
  mounted : bool;
  this_state : state;
  (** text shown in the Form.Control; the control has no [value] prop, so
      the DOM owns it *)
  control : string;
  (** [defaultPrevented] of each submit event object, in creation order *)
  submit_events : list bool;
  (** every [fetch] call so far, oldest first; a call's index is its id *)
  fetches : list fetch_call;
  (** the [data] arguments of [console.log("urls: ", data)] *)
  console : list json;
  (** promise chains that ended rejected with no handler attached *)
  unhandled : nat
}.

Definition initial_world : world :=
  {| mounted := false; this_state := initial_state; control := "";
     submit_events := []; fetches := []; console := []; unhandled := 0 |}.

Definition with_mounted (w : world) : world :=
  World true (this_state w) (control w) (submit_events w) (fetches w)
        (console w) (unhandled w).

Definition with_state (st : state) (w : world) : world :=
  World (mounted w) st (control w) (submit_events w) (fetches w)
        (console w) (unhandled w).

Definition with_control (s : string) (w : world) : world :=
  World (mounted w) (this_state w) s (submit_events w) (fetches w)
        (console w) (unhandled w).

Definition with_submit_events (l : list bool) (w : world) : world :=
  World (mounted w) (this_state w) (control w) l (fetches w)
        (console w) (unhandled w).

Definition with_fetches (l : list fetch_call) (w : world) : world :=
  World (mounted w) (this_state w) (control w) (submit_events w) l
        (console w) (unhandled w).

Definition with_console (l : list json) (w : world) : world :=
  World (mounted w) (this_state w) (control w) (submit_events w) (fetches w)
        l (unhandled w).

Definition with_unhandled (n : nat) (w : world) : world :=
  World (mounted w) (this_state w) (control w) (submit_events w) (fetches w)
        (console w) n.

(** [this.setState({urls: data})] and [this.setState({url: v})]. *)
Definition setState_urls (data : json) (w : world) : world :=
  with_state {| urls := data; url := url (this_state w) |} w.

Definition setState_url (v : string) (w : world) : world :=
  with_state {| urls := urls (this_state w); url := v |} w.

Definition console_log (data : json) (w : world) : world :=
  with_console (console w ++ [data]) w.

(** [fetch(...)] followed by [.then(...)]: the call is logged as pending. *)
Definition fetch (r : request) (k : callback) (w : world) : world :=
  with_fetches (fetches w ++ [FetchCall r k true]) w.

Definition unhandled_rejection (w : world) : world :=
  with_unhandled (S (unhandled w)) w.

Definition peers_request : request :=
  {| path := "/peers"; method := "GET"; body := None; headers := [] |}.

Definition join_request (v : string) : request :=
  {| path := "/joinNetwork"; method := "POST";
     body := Some (stringify {| body_url := v |});
     headers := [("Content-Type", "application/json")] |}.

(** [get_peers]: the synchronous part ... *)
Definition get_peers (w : world) : world :=
  fetch peers_request K_get_peers w.

(** ... and its chain [.then(res => res.json()).then(data => ...)]. *)
Definition get_peers_then (o : outcome) (w : world) : world :=
  match o with
  | Fulfilled _ (Some data) => setState_urls data (console_log data w)
  | Fulfilled _ None => unhandled_rejection w
  | Rejected => unhandled_rejection w
  end.

(** A submit event object is created by the browser, not yet cancelled. *)
Definition new_submit_event (w : world) : nat * world :=
  (length (submit_events w), with_submit_events (submit_events w ++ [false]) w).

Definition preventDefault (ev : nat) (w : world) : world :=
  with_submit_events (<[ev := true]> (submit_events w)) w.

(** [event.target.reset()]: the control has no default value. *)
Definition reset_form (w : world) : world :=
  with_control "" w.

(** [join_network(event)]: the synchronous part ... *)
Definition join_network (ev : nat) (w : world) : world :=
  let body := url (this_state w) in
  fetch (join_request body) (K_join_network ev) w.

(** ... and its [.then(res => { event.preventDefault(); event.target.reset(); })]. *)
Definition join_network_then (ev : nat) (o : outcome) (w : world) : world :=
  match o with
  | Fulfilled _ _ => reset_form (preventDefault ev w)
  | Rejected => unhandled_rejection w
  end.

Definition componentDidMount (w : world) : world :=
  get_peers w.

(** The inline [onChange] handler of the control. *)
Definition onChange (v : string) (w : world) : world :=
  setState_url v w.

(** ** Rendering *)

Inductive handler : Type :=
| H_join_network
| H_set_url.

Inductive prop : Type :=
| Attr (name value : string)
| On (name : string) (h : handler).

(** React elements as [render] builds them.  [Expr] is a [{value}] child,
    [Nodes] an array child. *)
Inductive node : Type :=
| Text (s : string)
| Expr (v : json)
| Elem (tag : string) (props : list prop) (children : list node)
| Nodes (items : list node).

Definition peer_entry (u : json) : node := Elem "p" [] [Expr u].

(** [this.state.urls.map(url => <p>{url}</p>)]; only an array has [map],
    on anything else the call throws. *)
Definition render_peers (st : state) : option (list node) :=
  match urls st with
  | JArr items => Some (peer_entry <$> items)
  | _ => None
  end.

Definition form_node : node :=
  Elem "Form" [On "onSubmit" H_join_network]
    [ Elem "Form.Group" []
        [ Elem "Form.Label" [] [Text "Please enter an url in the network to join"];
          Elem "Form.Control" [On "onChange" H_set_url] [] ];
      Elem "Button" [Attr "type" "submit"] [Text "JOIN"] ].

Definition render (st : state) : option node :=
  match render_peers st with
  | Some entries =>
      Some (Elem "div" []
              [ Elem "h1" [] [Text "Join Network"];
                form_node;
                Elem "h4" [] [Text "Connected Peers"];
                Nodes entries ])
  | None => None
  end.

(** ** Events *)

Inductive event : Type :=
| Mount
| Change (v : string)
| Submit
| Settle (id : nat) (o : outcome).

Definition mark_settled (id : nat) (w : world) : world :=
  match fetches w !! id with
  | Some c => with_fetches (<[id := FetchCall (sent c) (on_settle c) false]> (fetches w)) w
  | None => w
  end.

Definition run_callback (k : callback) (o : outcome) (w : world) : world :=
  match k with
  | K_get_peers => get_peers_then o w
  | K_join_network ev => join_network_then ev o w
  end.

(** A promise settles once. *)
Definition settle (id : nat) (o : outcome) (w : world) : world :=
  match fetches w !! id with
  | Some c => if pending c then run_callback (on_settle c) o (mark_settled id w) else w
  | None => w
  end.

Definition step (w : world) (e : event) : world :=
  match e with
  | Mount => if mounted w then w else componentDidMount (with_mounted w)
  | Change v => if mounted w then onChange v (with_control v w) else w
  | Submit =>
      if mounted w
      then let '(ev, w1) := new_submit_event w in join_network ev w1
      else w
  | Settle id o => settle id o w
  end.

Definition run (w : world) (evs : list event) : world :=
  fold_left step evs w.

(** ** Reading a trace *)

Definition is_mount (e : event) : bool :=
  match e with Mount => true | _ => false end.

Definition is_change (e : event) : bool :=
  match e with Change _ => true | _ => false end.

Definition settles (id : nat) (e : event) : bool :=
  match e with Settle j _ => Nat.eqb j id | _ => false end.

Definition no_change (evs : list event) : bool :=
  forallb (fun e => negb (is_change e)) evs.

Definition no_settle (id : nat) (evs : list event) : bool :=
  forallb (fun e => negb (settles id e)) evs.

Definition is_peers_request (r : request) : bool :=
  String.eqb (path r) "/peers" && String.eqb (method r) "GET".

(** The [fetch] calls a step adds to the log. *)
Definition issued (w : world) (e : event) : list fetch_call :=
  drop (length (fetches w)) (fetches (step w e)).

(** The parsed body an event hands over as the response to a [GET /peers]
    request that is still in flight, if it is such an event. *)
Definition delivers (w : world) (e : event) : option json :=
  match e with
  | Settle id (Fulfilled _ (Some data)) =>
      match fetches w !! id with
      | Some c => if pending c && is_peers_request (sent c) then Some data else None
      | None => None
      end
  | _ => None
  end.

(** All the [/peers] responses delivered along a trace, oldest first. *)
Fixpoint responses (w : world) (evs : list event) : list json :=
  match evs with
  | [] => []
  | e :: rest => option_list (delivers w e) ++ responses (step w e) rest
  end.

(** The requests sent so far, oldest first. *)
Definition requests (w : world) : list request := sent <$> fetches w.

(** Every logged call carries the request its callback was attached to,
    and a join callback closes over an event object that exists. *)
Definition call_ok (n : nat) (c : fetch_call) : Prop :=
  match on_settle c with
  | K_get_peers => sent c = peers_request
  | K_join_network ev => (exists v, sent c = join_request v) /\ ev < n
  end.

Definition wf (w : world) : Prop :=
  Forall (call_ok (length (submit_events w))) (fetches w).

(** No two logged calls close over the same submit event. *)
Definition one_call_per_event (w : world) : Prop :=
  forall i j ci cj ev,
    fetches w !! i = Some ci -> fetches w !! j = Some cj ->
    on_settle ci = K_join_network ev -> on_settle cj = K_join_network ev ->
    i = j.

(** The event of a join call that is still in flight is not cancelled. *)
Definition pending_uncancelled (w : world) : Prop :=
  forall id c ev,
    fetches w !! id = Some c -> on_settle c = K_join_network ev ->
    pending c = true -> submit_events w !! ev = Some false.

Definition inv (w : world) : Prop :=
  wf w /\ one_call_per_event w /\ pending_uncancelled w.

(** What the user has in front of them: the page and the text in the box. *)
Definition view (w : world) : option node * string :=
  (render (this_state w), control w).

(** ** Further readings of a trace and of the log *)

Definition is_submit (e : event) : bool :=
  match e with Submit => true | _ => false end.

Definition is_join_request (r : request) : bool :=
  String.eqb (path r) "/joinNetwork" && String.eqb (method r) "POST".

Definition is_array (j : json) : bool :=
  match j with JArr _ => true | _ => false end.

(** The component is mounted as soon as a trace holds a [Mount]. *)
Definition mounts (evs : list event) : bool := existsb is_mount evs.

(** The submissions of a trace that reach the component: those after the
    first [Mount]. *)
Fixpoint submissions (m : bool) (evs : list event) : nat :=
  match evs with
  | [] => 0
  | e :: rest =>
      (if m && is_submit e then 1 else 0) + submissions (m || is_mount e) rest
  end.

(** Every [/peers] call still in flight is left alone by the trace. *)
Definition quiet (w : world) (evs : list event) : Prop :=
  forall id c,
    fetches w !! id = Some c -> pending c = true ->
    is_peers_request (sent c) = true -> no_settle id evs = true.

(** The only call that can carry a [/peers] request is the first one. *)
Definition peers_call_first (w : world) : Prop :=
  forall id c,
    fetches w !! id = Some c -> is_peers_request (sent c) = true -> id = 0.

(** Reading one quoted character back, with what follows it.  The
    component never parses its own request body; this is the inverse that
    shows the quoting to lose nothing. *)
Definition hex_value (c : ascii) : N :=
  let n := N_of_ascii c in
  if (n <? 58)%N then (n - 48)%N else (n - 87)%N.

Definition unquote_head (s : string) : option (ascii * string) :=
  match s with
  | EmptyString => None
  | String c r =>
      if Ascii.eqb c dquote then None
      else if Ascii.eqb c backslash then
        match r with
        | String e r1 =>
            if Ascii.eqb e "b" then Some ("008"%char, r1)
            else if Ascii.eqb e "t" then Some ("009"%char, r1)
            else if Ascii.eqb e "n" then Some ("010"%char, r1)
            else if Ascii.eqb e "f" then Some ("012"%char, r1)
            else if Ascii.eqb e "r" then Some ("013"%char, r1)
            else if Ascii.eqb e dquote then Some (dquote, r1)
            else if Ascii.eqb e backslash then Some (backslash, r1)
            else if Ascii.eqb e "u" then
              match r1 with
              | String _ (String _ (String h (String l r2))) =>
                  Some (ascii_of_N (16 * hex_value h + hex_value l), r2)
              | _ => None
              end
            else None
        | EmptyString => None
        end
      else Some (c, r)
  end.

(** ** Proof steps that recur *)

Ltac case_settle :=
  unfold settle, mark_settled;
  match goal with
  | |- context [fetches ?w !! ?id] =>
      let c := fresh "c" in
      let E := fresh "E" in
      destruct (fetches w !! id) as [c|] eqn:E; [destruct (pending c) eqn:?|]
  end.

Ltac case_outcome o :=
  let s := fresh "s" in
  let d := fresh "d" in
  destruct o as [|s [d|]].

(** ** The request body, on examples *)

Example stringify_plain :
  stringify {| body_url := "http://localhost:5001" |} =
  "{" +:+ String dquote "url" +:+ String dquote ":" +:+
  String dquote "http://localhost:5001" +:+ String dquote "}".
Proof. reflexivity. Qed.

Example stringify_empty :
  stringify {| body_url := "" |} =
  "{" +:+ String dquote "url" +:+ String dquote ":" +:+
  String dquote (String dquote "}").
Proof. reflexivity. Qed.

(** A quote, a backslash, a line feed and the control character 31 are
    escaped; DEL (127) is not. *)
Example quote_chars_escapes :
  quote_chars (String dquote (String backslash
                (String "010" (String "031" (String "127" EmptyString))))) =
  String backslash (String dquote EmptyString) +:+
  String backslash (String backslash EmptyString) +:+
  String backslash "n" +:+
  String backslash "u001f" +:+
  String "127" EmptyString.
Proof. reflexivity. Qed.

(** ** Frame lemmas *)

Lemma run_app (w : world) (evs1 evs2 : list event) :
  run w (evs1 ++ evs2) = run (run w evs1) evs2.
Proof. unfold run. apply fold_left_app. Qed.

Lemma run_cons (w : world) (e : event) (evs : list event) :
  run w (e :: evs) = run (step w e) evs.
Proof. reflexivity. Qed.

Lemma run_snoc (w : world) (evs : list event) (e : event) :
  run w (evs ++ [e]) = step (run w evs) e.
Proof. apply run_app. Qed.

Lemma step_settle (w : world) (id : nat) (o : outcome) :
  step w (Settle id o) = settle id o w.
Proof. reflexivity. Qed.

Lemma settle_mounted (id : nat) (o : outcome) (w : world) :
  mounted (settle id o w) = mounted w.
Proof.
  case_settle; try reflexivity.
  destruct (on_settle c); case_outcome o; reflexivity.
Qed.

Lemma step_mounted (w : world) (e : event) :
  mounted w = true -> mounted (step w e) = true.
Proof.
  intros Hm. destruct e; cbn [step]; rewrite ?Hm;
    [reflexivity | exact Hm | exact Hm | rewrite settle_mounted; exact Hm].
Qed.

Lemma run_mounted (evs : list event) (w : world) :
  mounted w = true -> mounted (run w evs) = true.
Proof.
  revert w. induction evs as [|e evs IH]; intros w Hm; [exact Hm|].
  rewrite run_cons. apply IH, step_mounted, Hm.
Qed.

Lemma settle_url (id : nat) (o : outcome) (w : world) :
  url (this_state (settle id o w)) = url (this_state w).
Proof.
  case_settle; try reflexivity.
  destruct (on_settle c); case_outcome o; reflexivity.
Qed.

Lemma step_url (w : world) (e : event) :
  is_change e = false -> url (this_state (step w e)) = url (this_state w).
Proof.
  destruct e; cbn [step is_change]; intros H; try discriminate.
  - destruct (mounted w); reflexivity.
  - destruct (mounted w); reflexivity.
  - apply settle_url.
Qed.

Lemma run_url (evs : list event) (w : world) :
  no_change evs = true -> url (this_state (run w evs)) = url (this_state w).
Proof.
  revert w. induction evs as [|e evs IH]; intros w H; [reflexivity|].
  simpl in H. apply andb_prop in H as [He Hr].
  rewrite run_cons, IH by exact Hr.
  apply step_url. destruct (is_change e); [discriminate|reflexivity].
Qed.

Lemma step_change (w : world) (v : string) :
  mounted w = true ->
  url (this_state (step w (Change v))) = v /\ control (step w (Change v)) = v.
Proof. intros Hm. cbn [step]. rewrite Hm. split; reflexivity. Qed.

(** ** The fetch log *)

Lemma settle_fetches (id : nat) (o : outcome) (w : world) :
  fetches (settle id o w) =
  match fetches w !! id with
  | Some c =>
      if pending c
      then <[id := FetchCall (sent c) (on_settle c) false]> (fetches w)
      else fetches w
  | None => fetches w
  end.
Proof.
  case_settle; try reflexivity.
  destruct (on_settle c); case_outcome o; reflexivity.
Qed.

Lemma settle_submit_events_length (id : nat) (o : outcome) (w : world) :
  length (submit_events (settle id o w)) = length (submit_events w).
Proof.
  case_settle; try reflexivity.
  destruct (on_settle c); case_outcome o; cbn; rewrite ?length_insert; reflexivity.
Qed.

Lemma mount_fetches (w : world) :
  mounted w = false ->
  fetches (step w Mount) = fetches w ++ [FetchCall peers_request K_get_peers true].
Proof. intros Hm. cbn [step]. rewrite Hm. reflexivity. Qed.

(** A step never rewrites a logged call: the request and the callback stay,
    and only the settling of the call itself clears its pending flag. *)
Lemma step_lookup (w : world) (e : event) (id : nat) (c : fetch_call) :
  fetches w !! id = Some c ->
  exists c', fetches (step w e) !! id = Some c' /\ sent c' = sent c /\
             on_settle c' = on_settle c /\
             (settles id e = false -> pending c' = pending c).
Proof.
  intros Hc. pose proof (lookup_lt_Some _ _ _ Hc) as Hlt.
  destruct e as [|v| |j o]; cbn [step settles].
  - destruct (mounted w); cbn; [eauto 6|].
    exists c. rewrite lookup_app_l by exact Hlt. auto.
  - destruct (mounted w); cbn; eauto 6.
  - destruct (mounted w); cbn; [|eauto 6].
    exists c. rewrite lookup_app_l by exact Hlt. auto.
  - rewrite settle_fetches.
    destruct (fetches w !! j) as [cj|] eqn:Ej; [|eauto 6].
    destruct (pending cj); [|eauto 6].
    destruct (decide (j = id)) as [->|Hne].
    + rewrite list_lookup_insert_eq by exact Hlt.
      rewrite Hc in Ej. injection Ej as <-.
      eexists. split; [reflexivity|]. cbn. rewrite Nat.eqb_refl.
      repeat split. discriminate.
    + rewrite list_lookup_insert_ne by exact Hne. eauto 6.
Qed.

Lemma run_lookup (evs : list event) (w : world) (id : nat) (c : fetch_call) :
  fetches w !! id = Some c ->
  exists c', fetches (run w evs) !! id = Some c' /\ sent c' = sent c /\
             on_settle c' = on_settle c /\
             (no_settle id evs = true -> pending c' = pending c).
Proof.
  revert w c. induction evs as [|e evs IH]; intros w c Hc; [eauto 6|].
  rewrite run_cons.
  destruct (step_lookup w e id c Hc) as (c1 & H1 & Hs1 & Hk1 & Hp1).
  destruct (IH _ _ H1) as (c2 & H2 & Hs2 & Hk2 & Hp2).
  exists c2. repeat split; [exact H2|congruence|congruence|].
  cbn [no_settle forallb]. intros H. apply andb_prop in H as [He Hr].
  rewrite Hp2 by exact Hr. apply Hp1.
  destruct (settles id e); [discriminate|reflexivity].
Qed.

(** ** Reachable worlds *)

Lemma call_ok_mono (n m : nat) (c : fetch_call) :
  n <= m -> call_ok n c -> call_ok m c.
Proof.
  unfold call_ok. intros Hnm. destruct (on_settle c); [auto|].
  intros [Hv Hlt]. split; [exact Hv|lia].
Qed.

Lemma wf_initial : wf initial_world.
Proof. constructor. Qed.

Lemma wf_step (w : world) (e : event) : wf w -> wf (step w e).
Proof.
  unfold wf. intros Hw. destruct e as [|v| |j o]; cbn [step].
  - destruct (mounted w); [exact Hw|]. cbn.
    apply Forall_app. split; [exact Hw|].
    apply Forall_singleton. reflexivity.
  - destruct (mounted w); exact Hw.
  - destruct (mounted w); [|exact Hw]. cbn.
    rewrite length_app. cbn. apply Forall_app. split.
    + eapply Forall_impl; [exact Hw|]. intros c. apply call_ok_mono. lia.
    + apply Forall_singleton. split; [eauto|]. cbn. lia.
  - rewrite settle_submit_events_length, settle_fetches.
    destruct (fetches w !! j) as [c|] eqn:E; [|exact Hw].
    destruct (pending c); [|exact Hw].
    apply Forall_insert; [exact Hw|].
    exact (Forall_lookup_1 _ _ _ _ Hw E).
Qed.

Lemma wf_run (evs : list event) (w : world) : wf w -> wf (run w evs).
Proof.
  revert w. induction evs as [|e evs IH]; intros w Hw; [exact Hw|].
  rewrite run_cons. apply IH, wf_step, Hw.
Qed.

Lemma is_peers_request_callback (n : nat) (c : fetch_call) :
  call_ok n c ->
  is_peers_request (sent c) = match on_settle c with
                              | K_get_peers => true
                              | K_join_network _ => false
                              end.
Proof.
  unfold call_ok. destruct (on_settle c).
  - intros ->. reflexivity.
  - intros [[v ->] _]. reflexivity.
Qed.

(** Where a logged call comes from: it was logged before the step, or it
    is the call the step has just issued. *)
Lemma step_lookup_inv (w : world) (e : event) (id : nat) (c' : fetch_call) :
  fetches (step w e) !! id = Some c' ->
  (exists c, fetches w !! id = Some c /\ sent c = sent c' /\
             on_settle c = on_settle c' /\
             (pending c' = true -> pending c = true /\ settles id e = false)) \/
  (id = length (fetches w) /\
   ((e = Mount /\ c' = FetchCall peers_request K_get_peers true) \/
    (e = Submit /\
     c' = FetchCall (join_request (url (this_state w)))
                    (K_join_network (length (submit_events w))) true))).
Proof.
  destruct e as [|v| |j o]; cbn [step settles].
  - destruct (mounted w); cbn; [eauto 8|].
    rewrite lookup_snoc_Some. intros [[_ H]|[-> <-]]; [eauto 8|auto].
  - destruct (mounted w); cbn; eauto 8.
  - destruct (mounted w); cbn; [|eauto 8].
    rewrite lookup_snoc_Some. intros [[_ H]|[-> <-]]; [eauto 8|auto].
  - rewrite settle_fetches.
    destruct (fetches w !! j) as [cj|] eqn:Ej.
    2:{ intros H. left. exists c'. split; [exact H|].
        split; [reflexivity|]. split; [reflexivity|]. intros Hpc.
        split; [exact Hpc|]. apply Nat.eqb_neq. intros ->. congruence. }
    destruct (pending cj) eqn:Ep.
    2:{ intros H. left. exists c'. split; [exact H|].
        split; [reflexivity|]. split; [reflexivity|]. intros Hpc.
        split; [exact Hpc|]. apply Nat.eqb_neq. intros ->. congruence. }
    rewrite list_lookup_insert_Some. intros [(-> & <- & _)|(Hne & H)].
    + left. exists cj. split; [exact Ej|]. cbn.
      split; [reflexivity|]. split; [reflexivity|]. discriminate.
    + left. exists c'. split; [exact H|].
      split; [reflexivity|]. split; [reflexivity|]. intros Hpc.
      split; [exact Hpc|apply Nat.eqb_neq; exact Hne].
Qed.

Lemma settle_submit_events (id : nat) (o : outcome) (w : world) :
  submit_events (settle id o w) =
  match fetches w !! id with
  | Some c =>
      if pending c
      then match on_settle c, o with
           | K_join_network ev, Fulfilled _ _ => <[ev := true]> (submit_events w)
           | _, _ => submit_events w
           end
      else submit_events w
  | None => submit_events w
  end.
Proof.
  case_settle; try reflexivity.
  destruct (on_settle c); case_outcome o; reflexivity.
Qed.

Lemma inv_initial : inv initial_world.
Proof.
  split; [exact wf_initial|]. split.
  - intros i j ci cj ev H. inversion H.
  - intros id c ev H. inversion H.
Qed.

Lemma inv_step (w : world) (e : event) : inv w -> inv (step w e).
Proof.
  intros (Hw & Hu & Hp).
  assert (forall i ci ev, fetches w !! i = Some ci ->
                          on_settle ci = K_join_network ev ->
                          ev < length (submit_events w)) as Hlt.
  { intros i ci ev Hi Hk. pose proof (Forall_lookup_1 _ _ _ _ Hw Hi) as Hok.
    unfold call_ok in Hok. rewrite Hk in Hok. apply Hok. }
  split; [apply wf_step, Hw|]. split.
  - intros i j ci cj ev Hi Hj Hki Hkj.
    destruct (step_lookup_inv w e i ci Hi)
      as [(ci0 & Hi0 & _ & Hki0 & _)|(Hil & Hni)];
    destruct (step_lookup_inv w e j cj Hj)
      as [(cj0 & Hj0 & _ & Hkj0 & _)|(Hjl & Hnj)].
    + apply (Hu i j ci0 cj0 ev Hi0 Hj0); congruence.
    + destruct Hnj as [[_ ->]|[_ ->]]; [discriminate|].
      cbn in Hkj. injection Hkj as <-. rewrite Hki in Hki0.
      pose proof (Hlt i ci0 _ Hi0 Hki0). lia.
    + destruct Hni as [[_ ->]|[_ ->]]; [discriminate|].
      cbn in Hki. injection Hki as <-. rewrite Hkj in Hkj0.
      pose proof (Hlt j cj0 _ Hj0 Hkj0). lia.
    + congruence.
  - intros id c ev Hc Hk Hpc.
    destruct (step_lookup_inv w e id c Hc)
      as [(c0 & Hc0 & _ & Hk0 & Hp0)|(Hidl & Hn)].
    + destruct (Hp0 Hpc) as [Hpc0 Hns]. rewrite Hk in Hk0.
      pose proof (Hp id c0 ev Hc0 Hk0 Hpc0) as Hfalse.
      destruct e as [|v| |j o]; cbn [step].
      * destruct (mounted w); exact Hfalse.
      * destruct (mounted w); exact Hfalse.
      * destruct (mounted w); [|exact Hfalse]. cbn.
        apply lookup_app_l_Some, Hfalse.
      * rewrite settle_submit_events.
        destruct (fetches w !! j) as [cj|] eqn:Ej; [|exact Hfalse].
        destruct (pending cj); [|exact Hfalse].
        destruct (on_settle cj) as [|evj] eqn:Ekj; [exact Hfalse|].
        destruct o as [|s d]; [exact Hfalse|].
        rewrite list_lookup_insert_ne; [exact Hfalse|].
        intros ->. cbn in Hns. apply Nat.eqb_neq in Hns. apply Hns.
        exact (Hu j id cj c0 ev Ej Hc0 Ekj Hk0).
    + destruct Hn as [[_ ->]|[-> ->]]; [discriminate|].
      cbn in Hk. injection Hk as <-.
      cbn [step] in *. destruct (mounted w); cbn.
      * apply list_lookup_middle. reflexivity.
      * rewrite lookup_ge_None_2 in Hc by lia. discriminate.
Qed.

Lemma inv_run (evs : list event) (w : world) : inv w -> inv (run w evs).
Proof.
  revert w. induction evs as [|e evs IH]; intros w Hw; [exact Hw|].
  rewrite run_cons. apply IH, inv_step, Hw.
Qed.

(** ** What settling a call does *)

Lemma settle_get_peers (w : world) (id : nat) (c : fetch_call) (s : nat) (data : json) :
  fetches w !! id = Some c -> pending c = true -> on_settle c = K_get_peers ->
  this_state (settle id (Fulfilled s (Some data)) w) =
    {| urls := data; url := url (this_state w) |} /\
  control (settle id (Fulfilled s (Some data)) w) = control w /\
  console (settle id (Fulfilled s (Some data)) w) = console w ++ [data].
Proof.
  intros Hc Hp Hk. unfold settle, mark_settled. rewrite Hc, Hp, Hk.
  repeat split.
Qed.

Lemma settle_join_fulfilled (w : world) (id : nat) (c : fetch_call) (ev s : nat)
    (p : option json) :
  fetches w !! id = Some c -> pending c = true -> on_settle c = K_join_network ev ->
  this_state (settle id (Fulfilled s p) w) = this_state w /\
  control (settle id (Fulfilled s p) w) = "" /\
  submit_events (settle id (Fulfilled s p) w) = <[ev := true]> (submit_events w) /\
  console (settle id (Fulfilled s p) w) = console w /\
  unhandled (settle id (Fulfilled s p) w) = unhandled w.
Proof.
  intros Hc Hp Hk. unfold settle, mark_settled. rewrite Hc, Hp, Hk.
  repeat split.
Qed.

(** A chain that ends rejected touches nothing the component or the user
    can see: only the call is closed and the rejection goes unhandled. *)
Lemma settle_failed (w : world) (id : nat) (c : fetch_call) (o : outcome) :
  fetches w !! id = Some c -> pending c = true ->
  o = Rejected \/ (on_settle c = K_get_peers /\ exists s, o = Fulfilled s None) ->
  this_state (settle id o w) = this_state w /\
  control (settle id o w) = control w /\
  submit_events (settle id o w) = submit_events w /\
  console (settle id o w) = console w /\
  unhandled (settle id o w) = S (unhandled w).
Proof.
  intros Hc Hp Ho. unfold settle, mark_settled. rewrite Hc, Hp.
  destruct Ho as [->|[Hk [s ->]]].
  - destruct (on_settle c); repeat split.
  - rewrite Hk. repeat split.
Qed.

Lemma settle_join_state (w : world) (id : nat) (c : fetch_call) (ev : nat) (o : outcome) :
  fetches w !! id = Some c -> on_settle c = K_join_network ev ->
  this_state (settle id o w) = this_state w.
Proof.
  intros Hc Hk. unfold settle, mark_settled. rewrite Hc, Hk.
  destruct (pending c); [|reflexivity]. case_outcome o; reflexivity.
Qed.

(** [urls] moves exactly when a [/peers] response is delivered. *)
Lemma step_urls (w : world) (e : event) :
  wf w ->
  urls (this_state (step w e)) =
  match delivers w e with Some data => data | None => urls (this_state w) end.
Proof.
  intros Hw. destruct e as [|v| |j o]; cbn [step delivers].
  - destruct (mounted w); reflexivity.
  - destruct (mounted w); reflexivity.
  - destruct (mounted w); reflexivity.
  - unfold settle, mark_settled.
    destruct (fetches w !! j) as [c|] eqn:E.
    + rewrite (is_peers_request_callback _ c (Forall_lookup_1 _ _ _ _ Hw E)).
      destruct (pending c), (on_settle c); case_outcome o; reflexivity.
    + case_outcome o; reflexivity.
Qed.

Lemma run_urls (evs : list event) (w : world) :
  wf w ->
  urls (this_state (run w evs)) =
  default (urls (this_state w)) (last (responses w evs)).
Proof.
  revert w. induction evs as [|e evs IH]; intros w Hw; [reflexivity|].
  rewrite run_cons, IH by (apply wf_step, Hw).
  cbn [responses]. rewrite last_app, step_urls by exact Hw.
  destruct (last (responses (step w e) evs)); [reflexivity|].
  destruct (delivers w e); reflexivity.
Qed.

Lemma responses_sent (evs : list event) (w : world) (data : json) :
  data ∈ responses w evs ->
  exists id s, Settle id (Fulfilled s (Some data)) ∈ evs.
Proof.
  revert w. induction evs as [|e evs IH]; intros w; cbn [responses].
  - intros H. inversion H.
  - rewrite elem_of_app. intros [H|H].
    + destruct e as [|v| |j o]; cbn in H; try (inversion H; fail).
      destruct o as [|s [d|]]; try (inversion H; fail).
      destruct (fetches w !! j) as [c|]; [|inversion H].
      destruct (pending c && is_peers_request (sent c)); [|inversion H].
      apply list_elem_of_singleton in H as ->.
      exists j, s. left.
    + destruct (IH _ H) as (id & s & Hin). exists id, s. right. exact Hin.
Qed.

(** ** Submitting the form *)

Section Submission.

Variable w : world.
Hypothesis Hm : mounted w = true.

Lemma submit_fetches :
  fetches (step w Submit) =
  fetches w ++ [FetchCall (join_request (url (this_state w)))
                          (K_join_network (length (submit_events w))) true].
Proof. cbn [step]. rewrite Hm. reflexivity. Qed.

Lemma submit_frame :
  this_state (step w Submit) = this_state w /\
  control (step w Submit) = control w /\
  submit_events (step w Submit) = submit_events w ++ [false].
Proof. cbn [step]. rewrite Hm. repeat split. Qed.

Lemma issued_submit :
  issued w Submit =
  [FetchCall (join_request (url (this_state w)))
             (K_join_network (length (submit_events w))) true].
Proof. unfold issued. rewrite submit_fetches. apply drop_app_length. Qed.

(** When [join_network] returns, the event it was given is not cancelled:
    the call to [preventDefault] sits in the promise callback. *)
Lemma submit_returns_uncancelled :
  submit_events (step w Submit) !! length (submit_events w) = Some false.
Proof.
  destruct submit_frame as (_ & _ & ->).
  apply list_lookup_middle. reflexivity.
Qed.

(** The call a submission logs is still in flight, with its callback, after
    any events that do not settle it. *)
Lemma submitted_in_flight (evs : list event) :
  no_settle (length (fetches w)) evs = true ->
  exists c, fetches (run (step w Submit) evs) !! length (fetches w) = Some c /\
            sent c = join_request (url (this_state w)) /\
            on_settle c = K_join_network (length (submit_events w)) /\
            pending c = true.
Proof.
  intros Hns.
  assert (fetches (step w Submit) !! length (fetches w) =
          Some (FetchCall (join_request (url (this_state w)))
                          (K_join_network (length (submit_events w))) true)) as H0.
  { rewrite submit_fetches. apply list_lookup_middle. reflexivity. }
  destruct (run_lookup evs _ _ _ H0) as (c & Hc & Hs & Hk & Hp).
  exists c. repeat split; [exact Hc|exact Hs|exact Hk|apply Hp, Hns].
Qed.

End Submission.

Lemma step_submit_events_length (w : world) (e : event) :
  length (submit_events w) <= length (submit_events (step w e)).
Proof.
  destruct e as [|v| |j o]; cbn [step].
  - destruct (mounted w); reflexivity.
  - destruct (mounted w); reflexivity.
  - destruct (mounted w); cbn; rewrite ?length_app; lia.
  - rewrite settle_submit_events_length. reflexivity.
Qed.

Lemma run_submit_events_length (evs : list event) (w : world) :
  length (submit_events w) <= length (submit_events (run w evs)).
Proof.
  revert w. induction evs as [|e evs IH]; intros w; [reflexivity|].
  rewrite run_cons. etransitivity; [apply step_submit_events_length|apply IH].
Qed.

(** ** The claims about the form *)

(** C6. For every sequence of change events on the form field, after each
    event the tracked [url] is exactly the text the field then shows, the
    value carried by that most recent change event; and the tracked value
    stays that one under every later event that is not a change. *)
Theorem change_tracks_latest_text
    (w : world) (vs : list string) (v : string) (later : list event) :
  mounted w = true ->
  no_change later = true ->
  let w' := run w (Change <$> (vs ++ [v])) in
  url (this_state w') = v /\ control w' = v /\
  url (this_state w') = control w' /\
  url (this_state (run w' later)) = v.
Proof.
  intros Hm Hl w'. subst w'.
  rewrite fmap_app, run_app. cbn [fmap list_fmap run fold_left].
  assert (mounted (run w (Change <$> vs)) = true) as Hm' by (apply run_mounted, Hm).
  destruct (step_change (run w (Change <$> vs)) v Hm') as [Hu Hc].
  rewrite (run_url later) by exact Hl.
  fold (run w (Change <$> vs)).
  rewrite Hu, Hc. repeat split.
Qed.

Lemma change_tracks_latest_text_witness :
  let w' := run (step initial_world Mount) (Change <$> (["h"; "ht"] ++ ["htt"])) in
  url (this_state w') = "htt" /\ control w' = "htt" /\
  url (this_state w') = control w' /\
  url (this_state (run w' [Submit; Settle 1 (Fulfilled 200 None)])) = "htt".
Proof.
  exact (change_tracks_latest_text (step initial_world Mount) ["h"; "ht"] "htt"
           [Submit; Settle 1 (Fulfilled 200 None)] eq_refl eq_refl).
Defined.

(** C3. A form submission issues exactly one request: a POST to
    /joinNetwork whose body is the JSON text of the object with the single
    member [url] set to the tracked value, that is the value of the last
    change event, under the header Content-Type: application/json. *)
Theorem submit_issues_one_post
    (w : world) (before after : list event) (v : string) :
  mounted w = true ->
  no_change after = true ->
  let w' := run w (before ++ Change v :: after) in
  sent <$> issued w Submit =
    [ {| path := "/joinNetwork"; method := "POST";
         body := Some (stringify {| body_url := url (this_state w) |});
         headers := [("Content-Type", "application/json")] |} ] /\
  url (this_state w') = v /\
  sent <$> issued w' Submit =
    [ {| path := "/joinNetwork"; method := "POST";
         body := Some (stringify {| body_url := v |});
         headers := [("Content-Type", "application/json")] |} ] /\
  requests (step w' Submit) =
    requests w' ++ [ {| path := "/joinNetwork"; method := "POST";
                        body := Some (stringify {| body_url := v |});
                        headers := [("Content-Type", "application/json")] |} ].
Proof.
  intros Hm Ha w'.
  assert (mounted w' = true) as Hm' by (apply run_mounted, Hm).
  assert (url (this_state w') = v) as Hv.
  { subst w'. rewrite run_app, run_cons, run_url by exact Ha.
    apply step_change, run_mounted, Hm. }
  split; [rewrite (issued_submit _ Hm); reflexivity|].
  split; [exact Hv|]. split.
  - rewrite (issued_submit _ Hm'). rewrite Hv. reflexivity.
  - unfold requests. rewrite (submit_fetches _ Hm').
    rewrite fmap_app, Hv. reflexivity.
Qed.

Lemma submit_issues_one_post_witness :
  let w' := run (step initial_world Mount)
                ([Change "a"; Submit] ++ Change "b" :: [Settle 1 Rejected]) in
  sent <$> issued (step initial_world Mount) Submit =
    [ {| path := "/joinNetwork"; method := "POST";
         body := Some (stringify {| body_url := url (this_state (step initial_world Mount)) |});
         headers := [("Content-Type", "application/json")] |} ] /\
  url (this_state w') = "b" /\
  sent <$> issued w' Submit =
    [ {| path := "/joinNetwork"; method := "POST";
         body := Some (stringify {| body_url := "b" |});
         headers := [("Content-Type", "application/json")] |} ] /\
  requests (step w' Submit) =
    requests w' ++ [ {| path := "/joinNetwork"; method := "POST";
                        body := Some (stringify {| body_url := "b" |});
                        headers := [("Content-Type", "application/json")] |} ].
Proof.
  exact (submit_issues_one_post (step initial_world Mount) [Change "a"; Submit] 
           [Settle 1 Rejected] "b" eq_refl eq_refl).
Defined.

(** C9. Completing a join submission leaves the component state, and so
    the tracked [url], as it was, while the visible input is emptied; a
    second submission with no change event in between therefore sends the
    same request body as the first. *)
Theorem resubmit_sends_previous_url
    (w : world) (evs1 evs2 : list event) (s : nat) (p : option json) :
  mounted w = true ->
  no_change evs1 = true ->
  no_settle (length (fetches w)) evs1 = true ->
  no_change evs2 = true ->
  let w1 := run (step w Submit) evs1 in
  let w2 := step w1 (Settle (length (fetches w)) (Fulfilled s p)) in
  let w3 := run w2 evs2 in
  this_state w2 = this_state w1 /\
  url (this_state w2) = url (this_state w) /\
  control w2 = "" /\
  sent <$> issued w Submit = [join_request (url (this_state w))] /\
  sent <$> issued w3 Submit = sent <$> issued w Submit.
Proof.
  intros Hm Hc1 Hs1 Hc2 w1 w2 w3.
  destruct (submitted_in_flight w Hm evs1 Hs1) as (c & Hc & _ & Hk & Hp).
  destruct (settle_join_fulfilled w1 _ c _ s p Hc Hp Hk) as (Hst & Hctl & _).
  assert (url (this_state w1) = url (this_state w)) as Hu1.
  { subst w1. rewrite run_url by exact Hc1.
    destruct (submit_frame w Hm) as (-> & _). reflexivity. }
  assert (url (this_state w2) = url (this_state w)) as Hu2.
  { subst w2. cbn [step]. rewrite Hst. exact Hu1. }
  assert (mounted w3 = true) as Hm3.
  { subst w3 w2 w1. repeat (apply run_mounted || apply step_mounted). exact Hm. }
  repeat split.
  - exact Hst.
  - exact Hu2.
  - exact Hctl.
  - rewrite (issued_submit _ Hm). reflexivity.
  - rewrite (issued_submit _ Hm), (issued_submit _ Hm3). cbn [fmap list_fmap sent].
    subst w3. rewrite run_url by exact Hc2. rewrite Hu2. reflexivity.
Qed.

Lemma resubmit_sends_previous_url_witness :
  let w := run initial_world [Mount; Change "http://peer"] in
  let w1 := run (step w Submit) [Settle 0 (Fulfilled 200 (Some (JArr [])))] in
  let w2 := step w1 (Settle (length (fetches w)) (Fulfilled 200 None)) in
  let w3 := run w2 [Mount] in
  this_state w2 = this_state w1 /\
  url (this_state w2) = url (this_state w) /\
  control w2 = "" /\
  sent <$> issued w Submit = [join_request (url (this_state w))] /\
  sent <$> issued w3 Submit = sent <$> issued w Submit.
Proof.
  exact (resubmit_sends_previous_url
           (run initial_world [Mount; Change "http://peer"])
           [Settle 0 (Fulfilled 200 (Some (JArr [])))] [Mount] 200 None
           eq_refl eq_refl eq_refl eq_refl).
Defined.

(** C2, as the code has it.  A form submission never writes the component
    state: the tracked [url] is the same after the submit handler and after
    the completion callback, whatever the outcome of the POST; what a
    fulfilled POST clears is the visible input only. *)
Theorem submission_keeps_tracked_url
    (w : world) (evs : list event) (o : outcome) :
  mounted w = true ->
  no_settle (length (fetches w)) evs = true ->
  let w1 := run (step w Submit) evs in
  let w2 := step w1 (Settle (length (fetches w)) o) in
  this_state (step w Submit) = this_state w /\
  this_state w2 = this_state w1 /\
  (forall s p, o = Fulfilled s p -> control w2 = "" /\ url (this_state w2) = url (this_state w1)).
Proof.
  intros Hm Hs w1 w2.
  destruct (submitted_in_flight w Hm evs Hs) as (c & Hc & _ & Hk & Hp).
  split; [apply submit_frame, Hm|].
  split; [exact (settle_join_state w1 _ c _ o Hc Hk)|].
  intros s p ->.
  destruct (settle_join_fulfilled w1 _ c _ s p Hc Hp Hk) as (Hst & Hctl & _).
  split; [exact Hctl|]. subst w2. cbn [step]. rewrite Hst. reflexivity.
Qed.

Lemma submission_keeps_tracked_url_witness :
  let w := run initial_world [Mount; Change "x"] in
  let w1 := run (step w Submit) [Change "xy"] in
  let w2 := step w1 (Settle (length (fetches w)) (Fulfilled 201 None)) in
  this_state (step w Submit) = this_state w /\
  this_state w2 = this_state w1 /\
  (forall s p, Fulfilled 201 None = Fulfilled s p ->
               control w2 = "" /\ url (this_state w2) = url (this_state w1)).
Proof.
  exact (submission_keeps_tracked_url
           (run initial_world [Mount; Change "x"]) [Change "xy"]
           (Fulfilled 201 None) eq_refl eq_refl).
Defined.

(** C2 fails as stated: typing x, submitting, and receiving a 200 leaves
    the tracked [url] at x, with the visible input empty. *)
Lemma submission_does_not_reset_url :
  let w := run initial_world
               [Mount; Change "x"; Submit; Settle 1 (Fulfilled 200 None)] in
  control w = "" /\ url (this_state w) = "x" /\ url (this_state w) <> "".
Proof. repeat split. discriminate. Qed.

(** C1, as the code has it.  When the POST of a submission is fulfilled,
    whatever the status of the response, the completion callback resets the
    form, which empties the visible input; when the POST is rejected the
    callback does not run, and the visible input and the page are left as
    they were. *)
Theorem join_completion_clears_input
    (w : world) (evs : list event) (s : nat) (p : option json) :
  mounted w = true ->
  no_settle (length (fetches w)) evs = true ->
  let id := length (fetches w) in
  let w1 := run (step w Submit) evs in
  control (step w1 (Settle id (Fulfilled s p))) = "" /\
  control (step w1 (Settle id Rejected)) = control w1 /\
  this_state (step w1 (Settle id Rejected)) = this_state w1 /\
  view (step w1 (Settle id Rejected)) = view w1.
Proof.
  intros Hm Hs id w1.
  destruct (submitted_in_flight w Hm evs Hs) as (c & Hc & _ & Hk & Hp).
  destruct (settle_join_fulfilled w1 _ c _ s p Hc Hp Hk) as (_ & Hctl & _).
  destruct (settle_failed w1 _ c Rejected Hc Hp (or_introl eq_refl))
    as (Hst & Hctl' & _).
  subst id. rewrite !step_settle.
  split; [exact Hctl|]. split; [exact Hctl'|]. split; [exact Hst|].
  unfold view. rewrite Hst, Hctl'. reflexivity.
Qed.

Lemma join_completion_clears_input_witness :
  let w := run initial_world [Mount; Change "x"] in
  let id := length (fetches w) in
  let w1 := run (step w Submit) [Change "xy"; Submit; Settle 2 (Fulfilled 200 None)] in
  control (step w1 (Settle id (Fulfilled 500 None))) = "" /\
  control (step w1 (Settle id Rejected)) = control w1 /\
  this_state (step w1 (Settle id Rejected)) = this_state w1 /\
  view (step w1 (Settle id Rejected)) = view w1.
Proof.
  exact (join_completion_clears_input
           (run initial_world [Mount; Change "x"])
           [Change "xy"; Submit; Settle 2 (Fulfilled 200 None)]
           500 None eq_refl eq_refl).
Defined.

(** C1 fails as stated: when the POST is rejected the visible input is not
    cleared, it keeps the text that was typed. *)
Lemma rejected_join_keeps_input :
  let w := run initial_world [Mount; Change "x"; Submit; Settle 1 Rejected] in
  control w = "x" /\ control w <> "".
Proof. split; [reflexivity|discriminate]. Qed.

(** ** Fetching the peers *)

Lemma requests_settle (id : nat) (o : outcome) (w : world) :
  requests (settle id o w) = requests w.
Proof.
  unfold requests. rewrite settle_fetches.
  destruct (fetches w !! id) as [c|] eqn:E; [|reflexivity].
  destruct (pending c); [|reflexivity].
  rewrite list_fmap_insert. apply list_insert_id.
  rewrite list_lookup_fmap, E. reflexivity.
Qed.

Lemma step_peers_requests (w : world) (e : event) :
  mounted w = true ->
  filter is_peers_request (requests (step w e)) =
  filter is_peers_request (requests w).
Proof.
  intros Hm. destruct e as [|v| |j o]; cbn [step]; rewrite ?Hm; try reflexivity.
  - unfold requests. cbn. rewrite fmap_app, filter_app. cbn.
    apply app_nil_r.
  - rewrite requests_settle. reflexivity.
Qed.

Lemma run_peers_requests (evs : list event) (w : world) :
  mounted w = true ->
  filter is_peers_request (requests (run w evs)) =
  filter is_peers_request (requests w).
Proof.
  revert w. induction evs as [|e evs IH]; intros w Hm; [reflexivity|].
  rewrite run_cons, IH by (apply step_mounted, Hm).
  apply step_peers_requests, Hm.
Qed.

(** Before the component is mounted nothing happens at all. *)
Lemma step_unmounted (w : world) (e : event) :
  mounted w = false -> fetches w = [] -> is_mount e = false -> step w e = w.
Proof.
  intros Hm Hf He. destruct e as [|v| |j o]; cbn [step]; rewrite ?Hm;
    try reflexivity; try discriminate.
  unfold settle. rewrite Hf. reflexivity.
Qed.

(** Over a whole trace, GET /peers is requested once if the component was
    mounted, and never otherwise. *)
Lemma peers_requests_of_trace (evs : list event) (w : world) :
  mounted w = false -> fetches w = [] ->
  filter is_peers_request (requests (run w evs)) =
  if existsb is_mount evs then [peers_request] else [].
Proof.
  intros Hm Hf. induction evs as [|e evs IH].
  - unfold requests. cbn. rewrite Hf. reflexivity.
  - rewrite run_cons. cbn [existsb]. destruct (is_mount e) eqn:He.
    + destruct e; try discriminate. cbn [orb].
      rewrite run_peers_requests by (cbn [step]; rewrite Hm; reflexivity).
      unfold requests. cbn [step]. rewrite Hm. cbn. rewrite Hf. reflexivity.
    + rewrite step_unmounted by assumption. exact IH.
Qed.

(** The call logged at mount is still in flight, with its callback, after
    any events that do not settle it. *)
Lemma mounted_in_flight (evs : list event) :
  no_settle 0 evs = true ->
  exists c, fetches (run (step initial_world Mount) evs) !! 0 = Some c /\
            sent c = peers_request /\ on_settle c = K_get_peers /\
            pending c = true.
Proof.
  intros Hns.
  destruct (run_lookup evs (step initial_world Mount) 0
              (FetchCall peers_request K_get_peers true) eq_refl)
    as (c & Hc & Hs & Hk & Hp).
  exists c. repeat split; [exact Hc|exact Hs|exact Hk|apply Hp, Hns].
Qed.

Lemma callback_of_peers_request (n : nat) (c : fetch_call) :
  call_ok n c -> sent c = peers_request -> on_settle c = K_get_peers.
Proof.
  unfold call_ok. destruct (on_settle c); [reflexivity|].
  intros [[v Hv] _] Hs. rewrite Hv in Hs. discriminate.
Qed.

Lemma callback_of_join_request (n : nat) (c : fetch_call) (v : string) :
  call_ok n c -> sent c = join_request v ->
  exists ev, on_settle c = K_join_network ev.
Proof.
  unfold call_ok. destruct (on_settle c) as [|ev]; [|eauto].
  intros Hp Hs. rewrite Hs in Hp. discriminate.
Qed.

Lemma render_of_strings (st : state) (l : list string) :
  urls st = JArr (JStr <$> l) ->
  render_peers st = Some ((fun u => Elem "p" [] [Expr (JStr u)]) <$> l) /\
  render st =
    Some (Elem "div" []
            [ Elem "h1" [] [Text "Join Network"];
              form_node;
              Elem "h4" [] [Text "Connected Peers"];
              Nodes ((fun u => Elem "p" [] [Expr (JStr u)]) <$> l) ]).
Proof.
  intros H. unfold render, render_peers. rewrite H.
  rewrite <- list_fmap_compose. split; reflexivity.
Qed.

(** ** The claims about the peer list *)

(** C4. Mounting the component issues exactly one GET /peers request, no
    other is ever issued (and none without a mount), and when that request
    returns an array of strings the page shows exactly those strings, one
    entry each, in the order of the response. *)
Theorem mount_fetches_and_renders_peers
    (evs : list event) (s : nat) (l : list string) :
  no_settle 0 evs = true ->
  let w := run initial_world
               (Mount :: evs ++ [Settle 0 (Fulfilled s (Some (JArr (JStr <$> l))))]) in
  sent <$> issued initial_world Mount =
    [ {| path := "/peers"; method := "GET"; body := None; headers := [] |} ] /\
  filter is_peers_request (requests w) =
    [ {| path := "/peers"; method := "GET"; body := None; headers := [] |} ] /\
  (forall trace,
     filter is_peers_request (requests (run initial_world trace)) =
     if existsb is_mount trace
     then [ {| path := "/peers"; method := "GET"; body := None; headers := [] |} ]
     else []) /\
  render_peers (this_state w) = Some ((fun u => Elem "p" [] [Expr (JStr u)]) <$> l) /\
  render (this_state w) =
    Some (Elem "div" []
            [ Elem "h1" [] [Text "Join Network"];
              form_node;
              Elem "h4" [] [Text "Connected Peers"];
              Nodes ((fun u => Elem "p" [] [Expr (JStr u)]) <$> l) ]).
Proof.
  intros Hns w.
  split; [reflexivity|]. split; [|split].
  - subst w. rewrite run_cons, run_peers_requests by reflexivity. reflexivity.
  - intros trace. apply peers_requests_of_trace; reflexivity.
  - apply render_of_strings. subst w.
    rewrite run_cons, run_snoc, step_settle.
    destruct (mounted_in_flight evs Hns) as (c & Hc & _ & Hk & Hp).
    destruct (settle_get_peers _ 0 c s (JArr (JStr <$> l)) Hc Hp Hk) as (-> & _).
    reflexivity.
Qed.

Lemma mount_fetches_and_renders_peers_witness :
  let w := run initial_world
               (Mount :: [Change "x"; Submit] ++
                         [Settle 0 (Fulfilled 200 (Some (JArr (JStr <$> ["a"; "b"]))))]) in
  sent <$> issued initial_world Mount =
    [ {| path := "/peers"; method := "GET"; body := None; headers := [] |} ] /\
  filter is_peers_request (requests w) =
    [ {| path := "/peers"; method := "GET"; body := None; headers := [] |} ] /\
  (forall trace,
     filter is_peers_request (requests (run initial_world trace)) =
     if existsb is_mount trace
     then [ {| path := "/peers"; method := "GET"; body := None; headers := [] |} ]
     else []) /\
  render_peers (this_state w) =
    Some ((fun u => Elem "p" [] [Expr (JStr u)]) <$> ["a"; "b"]) /\
  render (this_state w) =
    Some (Elem "div" []
            [ Elem "h1" [] [Text "Join Network"];
              form_node;
              Elem "h4" [] [Text "Connected Peers"];
              Nodes ((fun u => Elem "p" [] [Expr (JStr u)]) <$> ["a"; "b"]) ]).
Proof.
  exact (mount_fetches_and_renders_peers [Change "x"; Submit] 200 ["a"; "b"] eq_refl).
Defined.

(** C5. When GET /peers returns the empty array, no peer entry is
    rendered: the page ends with an empty list of entries. *)
Theorem empty_response_renders_no_peers
    (evs : list event) (id s : nat) (c : fetch_call) :
  fetches (run initial_world evs) !! id = Some c ->
  pending c = true ->
  sent c = peers_request ->
  let w := step (run initial_world evs) (Settle id (Fulfilled s (Some (JArr [])))) in
  render_peers (this_state w) = Some [] /\
  render (this_state w) =
    Some (Elem "div" []
            [ Elem "h1" [] [Text "Join Network"];
              form_node;
              Elem "h4" [] [Text "Connected Peers"];
              Nodes [] ]).
Proof.
  intros Hc Hp Hs w.
  assert (on_settle c = K_get_peers) as Hk.
  { eapply callback_of_peers_request; [|exact Hs].
    exact (Forall_lookup_1 _ _ _ _ (wf_run evs _ wf_initial) Hc). }
  apply (render_of_strings (this_state w) []).
  subst w. cbn [step].
  destruct (settle_get_peers _ id c s (JArr []) Hc Hp Hk) as (-> & _).
  reflexivity.
Qed.

Lemma empty_response_renders_no_peers_witness :
  let w := step (run initial_world [Mount; Change "x"])
                (Settle 0 (Fulfilled 200 (Some (JArr [])))) in
  render_peers (this_state w) = Some [] /\
  render (this_state w) =
    Some (Elem "div" []
            [ Elem "h1" [] [Text "Join Network"];
              form_node;
              Elem "h4" [] [Text "Connected Peers"];
              Nodes [] ]).
Proof.
  exact (empty_response_renders_no_peers [Mount; Change "x"] 0 200
           (FetchCall peers_request K_get_peers true) eq_refl eq_refl eq_refl).
Defined.

Lemma responses_app (evs1 evs2 : list event) (w : world) :
  responses w (evs1 ++ evs2) = responses w evs1 ++ responses (run w evs1) evs2.
Proof.
  revert w. induction evs1 as [|e evs1 IH]; intros w; [reflexivity|].
  cbn [app responses]. rewrite IH, run_cons, app_assoc. reflexivity.
Qed.

Lemma step_state_submit (w : world) :
  this_state (step w Submit) = this_state w.
Proof. cbn [step]. destruct (mounted w); reflexivity. Qed.

(** C7. In every reachable state [urls] is the most recent response
    delivered for GET /peers, or the initial empty list when none has been
    delivered; neither submitting the form nor the completion of a join
    request touches [urls] or counts as such a response, so a joined peer
    does not show up in the list. *)
Theorem urls_is_latest_peers_response (evs : list event) :
  let w := run initial_world evs in
  urls (this_state w) = default (JArr []) (last (responses initial_world evs)) /\
  urls (this_state (step w Submit)) = urls (this_state w) /\
  (forall id c v o,
      fetches w !! id = Some c -> sent c = join_request v ->
      urls (this_state (step w (Settle id o))) = urls (this_state w) /\
      responses initial_world (evs ++ [Settle id o]) = responses initial_world evs).
Proof.
  intros w. split; [apply (run_urls evs initial_world wf_initial)|].
  split; [rewrite step_state_submit; reflexivity|].
  intros id c v o Hc Hs.
  pose proof (Forall_lookup_1 _ _ _ _ (wf_run evs _ wf_initial) Hc) as Hok.
  destruct (callback_of_join_request _ c v Hok Hs) as [ev Hk].
  split.
  - rewrite step_settle, (settle_join_state w id c ev o Hc Hk). reflexivity.
  - rewrite responses_app. fold w. cbn [responses delivers].
    case_outcome o; cbn [option_list option_rect]; rewrite ?app_nil_r; try reflexivity.
    rewrite Hc, Hs, andb_false_r. cbn. rewrite app_nil_r. reflexivity.
Qed.

(** C10, as the code has it.  The component starts with [urls] empty and
    [url] the empty string and shows no peer entry; as long as no /peers
    response has been delivered [urls] is still empty and no entry shows
    ([url] is still empty only if nothing was typed either); and every
    reachable value of [urls] is the initial empty list or a value delivered
    by a /peers response. *)
Theorem urls_initial_or_delivered (evs : list event) :
  let w := run initial_world evs in
  this_state initial_world = {| urls := JArr []; url := "" |} /\
  render_peers (this_state initial_world) = Some [] /\
  (responses initial_world evs = [] ->
     urls (this_state w) = JArr [] /\
     render_peers (this_state w) = Some [] /\
     (no_change evs = true -> this_state w = {| urls := JArr []; url := "" |})) /\
  (urls (this_state w) = JArr [] \/
   (urls (this_state w) ∈ responses initial_world evs /\
    exists id s, Settle id (Fulfilled s (Some (urls (this_state w)))) ∈ evs)).
Proof.
  intros w.
  pose proof (run_urls evs initial_world wf_initial) as Hu. fold w in Hu.
  split; [reflexivity|]. split; [reflexivity|]. split.
  - intros Hr. rewrite Hr in Hu. cbn in Hu.
    split; [exact Hu|]. split; [unfold render_peers; rewrite Hu; reflexivity|].
    intros Hnc. pose proof (run_url evs initial_world Hnc) as Hv. fold w in Hv.
    destruct (this_state w) as [us u]. cbn in Hu, Hv. subst. reflexivity.
  - destruct (last (responses initial_world evs)) as [d|] eqn:El.
    + right. cbn in Hu. rewrite Hu.
      apply last_Some_elem_of in El. split; [exact El|].
      exact (responses_sent evs initial_world d El).
    + left. exact Hu.
Qed.

(** C10 fails as stated: after typing x, with the /peers request still in
    flight and no response delivered, [url] is no longer the empty string. *)
Lemma typing_before_first_response :
  let evs := [Mount; Change "x"] in
  responses initial_world evs = [] /\
  fetches (run initial_world evs) = [FetchCall peers_request K_get_peers true] /\
  this_state (run initial_world evs) = {| urls := JArr []; url := "x" |} /\
  this_state (run initial_world evs) <> {| urls := JArr []; url := "" |}.
Proof. repeat split. discriminate. Qed.

(** C8, as the code has it.  No error-handling branch exists.  A rejected
    fetch on either operation, and a GET /peers response whose body is not
    JSON, run no callback: state, page, input and console stay as they were
    and the failure ends as an unhandled rejection.  The status of a
    response is never looked at: a POST /joinNetwork response leaves the
    state unchanged and is handled the same whatever its status and body,
    and a GET /peers response whose body is JSON sets [urls] to that body
    whatever its status. *)
Theorem failures_have_no_handler
    (evs : list event) (id : nat) (c : fetch_call) :
  fetches (run initial_world evs) !! id = Some c ->
  pending c = true ->
  let w := run initial_world evs in
  (this_state (step w (Settle id Rejected)) = this_state w /\
   view (step w (Settle id Rejected)) = view w /\
   console (step w (Settle id Rejected)) = console w /\
   unhandled (step w (Settle id Rejected)) = S (unhandled w)) /\
  (sent c = peers_request -> forall s,
   this_state (step w (Settle id (Fulfilled s None))) = this_state w /\
   view (step w (Settle id (Fulfilled s None))) = view w /\
   console (step w (Settle id (Fulfilled s None))) = console w /\
   unhandled (step w (Settle id (Fulfilled s None))) = S (unhandled w)) /\
  ((exists v, sent c = join_request v) -> forall s p,
   this_state (step w (Settle id (Fulfilled s p))) = this_state w /\
   unhandled (step w (Settle id (Fulfilled s p))) = unhandled w /\
   step w (Settle id (Fulfilled s p)) = step w (Settle id (Fulfilled 200 None))) /\
  (sent c = peers_request -> forall s data,
   this_state (step w (Settle id (Fulfilled s (Some data)))) =
     {| urls := data; url := url (this_state w) |}).
Proof.
  intros Hc Hp w.
  pose proof (Forall_lookup_1 _ _ _ _ (wf_run evs _ wf_initial) Hc) as Hok.
  split; [|split; [|split]].
  - destruct (settle_failed w id c Rejected Hc Hp (or_introl eq_refl))
      as (Hst & Hctl & _ & Hcon & Hun).
    rewrite !step_settle. unfold view. rewrite Hst, Hctl, Hcon, Hun. repeat split.
  - intros Hs s. pose proof (callback_of_peers_request _ c Hok Hs) as Hk.
    destruct (settle_failed w id c (Fulfilled s None) Hc Hp)
      as (Hst & Hctl & _ & Hcon & Hun); [right; eauto|].
    rewrite !step_settle. unfold view. rewrite Hst, Hctl, Hcon, Hun. repeat split.
  - intros [v Hs] s p. destruct (callback_of_join_request _ c v Hok Hs) as [ev Hk].
    rewrite !step_settle.
    destruct (settle_join_fulfilled w id c ev s p Hc Hp Hk) as (Hst & _ & _ & _ & Hun).
    split; [exact Hst|]. split; [exact Hun|].
    unfold settle. fold w in Hc. rewrite Hc, Hp, Hk. reflexivity.
  - intros Hs s data. pose proof (callback_of_peers_request _ c Hok Hs) as Hk.
    rewrite step_settle. apply (settle_get_peers w id c s data Hc Hp Hk).
Qed.

Lemma failures_have_no_handler_witness :
  let c := FetchCall (join_request "x") (K_join_network 0) true in
  let w := run initial_world [Mount; Change "x"; Submit] in
  (this_state (step w (Settle 1 Rejected)) = this_state w /\
   view (step w (Settle 1 Rejected)) = view w /\
   console (step w (Settle 1 Rejected)) = console w /\
   unhandled (step w (Settle 1 Rejected)) = S (unhandled w)) /\
  (sent c = peers_request -> forall s,
   this_state (step w (Settle 1 (Fulfilled s None))) = this_state w /\
   view (step w (Settle 1 (Fulfilled s None))) = view w /\
   console (step w (Settle 1 (Fulfilled s None))) = console w /\
   unhandled (step w (Settle 1 (Fulfilled s None))) = S (unhandled w)) /\
  ((exists v, sent c = join_request v) -> forall s p,
   this_state (step w (Settle 1 (Fulfilled s p))) = this_state w /\
   unhandled (step w (Settle 1 (Fulfilled s p))) = unhandled w /\
   step w (Settle 1 (Fulfilled s p)) = step w (Settle 1 (Fulfilled 200 None))) /\
  (sent c = peers_request -> forall s data,
   this_state (step w (Settle 1 (Fulfilled s (Some data)))) =
     {| urls := data; url := url (this_state w) |}).
Proof.
  exact (failures_have_no_handler [Mount; Change "x"; Submit] 1
           (FetchCall (join_request "x") (K_join_network 0) true) eq_refl eq_refl).
Defined.

(** C8 fails as stated: a 500 answer to GET /peers whose body is a JSON
    object replaces [urls] by that object, after which the page cannot be
    rendered. *)
Lemma failed_peers_response_changes_state :
  let w := run initial_world [Mount] in
  let w' := step w (Settle 0 (Fulfilled 500 (Some (JObj [("error", JStr "down")])))) in
  this_state w = {| urls := JArr []; url := "" |} /\
  this_state w' = {| urls := JObj [("error", JStr "down")]; url := "" |} /\
  this_state w' <> this_state w /\
  render (this_state w') = None /\
  view w' <> view w.
Proof. repeat split; discriminate. Qed.

(** ** Beyond the claims: the request body *)

Lemma string_app_assoc (a b c : string) :
  (a +:+ b) +:+ c = a +:+ (b +:+ c).
Proof.
  induction a as [|x a IH]; [reflexivity|].
  exact (f_equal (String x) IH).
Qed.

Lemma unquote_head_quote_char (c : ascii) (rest : string) :
  unquote_head (quote_char c +:+ rest) = Some (c, rest).
Proof.
  destruct c as [[] [] [] [] [] [] [] []]; reflexivity.
Qed.

Lemma quote_char_not_dquote (c : ascii) (rest tail : string) :
  quote_char c +:+ rest <> String dquote tail.
Proof.
  intros H. apply (f_equal unquote_head) in H.
  rewrite unquote_head_quote_char in H. discriminate.
Qed.

Lemma quote_chars_inj (s1 s2 tail1 tail2 : string) :
  quote_chars s1 +:+ String dquote tail1 = quote_chars s2 +:+ String dquote tail2 ->
  s1 = s2 /\ tail1 = tail2.
Proof.
  revert s2. induction s1 as [|c1 s1 IH]; intros [|c2 s2]; cbn [quote_chars].
  - intros H. change (String dquote tail1 = String dquote tail2) in H.
    injection H as ->. split; reflexivity.
  - rewrite string_app_assoc. intros H. symmetry in H.
    destruct (quote_char_not_dquote _ _ _ H).
  - rewrite string_app_assoc. intros H.
    destruct (quote_char_not_dquote _ _ _ H).
  - rewrite !string_app_assoc. intros H.
    apply (f_equal unquote_head) in H.
    rewrite !unquote_head_quote_char in H. injection H as -> H.
    destruct (IH _ H) as [-> ->]. split; reflexivity.
Qed.

Lemma string_app_inv_head (a x y : string) : a +:+ x = a +:+ y -> x = y.
Proof.
  induction a as [|c a IH]; intros H; [exact H|].
  apply IH. change (String c (a +:+ x) = String c (a +:+ y)) in H.
  injection H as H. exact H.
Qed.

Lemma QuoteJSONString_inj (s1 s2 tail1 tail2 : string) :
  QuoteJSONString s1 +:+ tail1 = QuoteJSONString s2 +:+ tail2 ->
  s1 = s2 /\ tail1 = tail2.
Proof.
  unfold QuoteJSONString. intros H.
  change (String dquote ((quote_chars s1 +:+ String dquote EmptyString) +:+ tail1) =
          String dquote ((quote_chars s2 +:+ String dquote EmptyString) +:+ tail2)) in H.
  injection H as H. rewrite !string_app_assoc in H.
  exact (quote_chars_inj _ _ _ _ H).
Qed.

(** X9. The body of a join request determines the submitted url: two
    submissions send the same JSON text, and so the same request, exactly
    when their tracked urls are equal. *)
Theorem join_body_determines_url (v1 v2 : string) :
  (stringify {| body_url := v1 |} = stringify {| body_url := v2 |} <-> v1 = v2) /\
  (join_request v1 = join_request v2 <-> v1 = v2).
Proof.
  assert (stringify {| body_url := v1 |} = stringify {| body_url := v2 |} -> v1 = v2)
    as Hinj.
  { unfold stringify. cbn [body_url]. intros H.
    do 3 apply string_app_inv_head in H.
    exact (proj1 (QuoteJSONString_inj _ _ _ _ H)). }
  split; split.
  - exact Hinj.
  - intros ->. reflexivity.
  - intros H. apply Hinj.
    exact (f_equal (fun r => default EmptyString (body r)) H).
  - intros ->. reflexivity.
Qed.

(** ** Beyond the claims: invariants of the page *)

Lemma settle_control (id : nat) (o : outcome) (w : world) :
  control (settle id o w) = control w \/ control (settle id o w) = "".
Proof.
  case_settle; auto.
  destruct (on_settle c); case_outcome o; auto.
Qed.

Lemma step_input_empty_or_tracked (w : world) (e : event) :
  control w = "" \/ control w = url (this_state w) ->
  control (step w e) = "" \/ control (step w e) = url (this_state (step w e)).
Proof.
  intros H. destruct e as [|v| |j o]; cbn [step].
  - destruct (mounted w); exact H.
  - destruct (mounted w); [right; reflexivity|exact H].
  - destruct (mounted w); exact H.
  - rewrite settle_url. destruct (settle_control j o w) as [-> | ->]; auto.
Qed.

(** X1. In every reachable state the visible input is either empty or shows
    exactly the tracked [url]: what the user reads in the box, if anything,
    is what a submission sends. *)
Theorem input_empty_or_tracked (evs : list event) :
  let w := run initial_world evs in
  control w = "" \/ control w = url (this_state w).
Proof.
  cbv zeta.
  assert (forall w, control w = "" \/ control w = url (this_state w) ->
                    control (run w evs) = "" \/
                    control (run w evs) = url (this_state (run w evs))) as Hrun.
  { induction evs as [|e evs IH]; intros w H; [exact H|].
    rewrite run_cons. apply IH, step_input_empty_or_tracked, H. }
  apply Hrun. left. reflexivity.
Qed.

Lemma step_console (w : world) (e : event) :
  wf w -> console (step w e) = console w ++ option_list (delivers w e).
Proof.
  intros Hw. destruct e as [|v| |j o]; cbn [step delivers].
  - destruct (mounted w); cbn; rewrite app_nil_r; reflexivity.
  - destruct (mounted w); cbn; rewrite app_nil_r; reflexivity.
  - destruct (mounted w); cbn; rewrite app_nil_r; reflexivity.
  - unfold settle, mark_settled.
    destruct (fetches w !! j) as [c|] eqn:E.
    + rewrite (is_peers_request_callback _ c (Forall_lookup_1 _ _ _ _ Hw E)).
      destruct (pending c), (on_settle c); case_outcome o; cbn;
        rewrite ?app_nil_r; reflexivity.
    + case_outcome o; cbn; rewrite app_nil_r; reflexivity.
Qed.

(** X4. The console holds exactly the bodies delivered for GET /peers, one
    line per response and in order of arrival: [get_peers] logs each body it
    stores, and nothing else in the component writes to the console. *)
Theorem console_logs_each_peers_response (evs : list event) :
  console (run initial_world evs) = responses initial_world evs /\
  urls (this_state (run initial_world evs)) =
    default (JArr []) (last (console (run initial_world evs))).
Proof.
  assert (forall w, wf w -> console (run w evs) = console w ++ responses w evs) as Hrun.
  { induction evs as [|e evs IH]; intros w Hw.
    - cbn. rewrite app_nil_r. reflexivity.
    - rewrite run_cons, IH by (apply wf_step, Hw).
      rewrite step_console by exact Hw. cbn [responses].
      rewrite app_assoc. reflexivity. }
  assert (console (run initial_world evs) = responses initial_world evs) as Hc
    by exact (Hrun initial_world wf_initial).
  split; [exact Hc|]. rewrite Hc.
  exact (run_urls evs initial_world wf_initial).
Qed.

Lemma render_None (st : state) : render st = None <-> is_array (urls st) = false.
Proof.
  unfold render, render_peers.
  destruct (urls st); cbn; split; intros H; (reflexivity || discriminate).
Qed.

(** X8. The call to [render] throws exactly when the body last delivered
    for GET /peers is not an array: on an object, a string, a number, a
    boolean or null [urls.map] is not callable.  On an array [render]
    returns, with one [p] element per item, in order, each holding the item
    untouched as its child; what React then makes of a child that is not
    text is not decided in [render] and is not stated here. *)
Theorem render_fails_on_non_array (evs : list event) :
  let w := run initial_world evs in
  (render (this_state w) = None <->
   exists data, last (responses initial_world evs) = Some data /\ is_array data = false) /\
  (forall items,
     last (responses initial_world evs) = Some (JArr items) ->
     render_peers (this_state w) = Some ((fun u => Elem "p" [] [Expr u]) <$> items)).
Proof.
  cbv zeta.
  pose proof (run_urls evs initial_world wf_initial) as Hu.
  split.
  - rewrite render_None, Hu.
    destruct (last (responses initial_world evs)) as [d|]; cbn; split.
    + intros H. exists d. split; [reflexivity|exact H].
    + intros (d' & Hd & H). injection Hd as <-. exact H.
    + discriminate.
    + intros (d' & Hd & _). discriminate.
  - intros items Hl. unfold render_peers. rewrite Hu, Hl. reflexivity.
Qed.

(** ** Beyond the claims: what is sent *)

Lemma requests_step (w : world) (e : event) :
  requests (step w e) =
  requests w ++
  match e with
  | Mount => if mounted w then [] else [peers_request]
  | Submit => if mounted w then [join_request (url (this_state w))] else []
  | _ => []
  end.
Proof.
  destruct e as [|v| |j o]; cbn [step].
  - destruct (mounted w); [rewrite app_nil_r; reflexivity|].
    unfold requests. cbn. rewrite fmap_app. reflexivity.
  - rewrite app_nil_r. destruct (mounted w); reflexivity.
  - destruct (mounted w); [|rewrite app_nil_r; reflexivity].
    unfold requests. cbn. rewrite fmap_app. reflexivity.
  - rewrite app_nil_r. apply requests_settle.
Qed.

Lemma step_mounted_eq (w : world) (e : event) :
  mounted (step w e) = mounted w || is_mount e.
Proof.
  destruct e as [|v| |j o]; cbn [step is_mount]; rewrite ?orb_false_r.
  - destruct (mounted w) eqn:E; [exact E|reflexivity].
  - destruct (mounted w) eqn:E; [exact E|exact E].
  - destruct (mounted w) eqn:E; [exact E|exact E].
  - apply settle_mounted.
Qed.

(** X2. The component only ever sends two kinds of request: GET /peers with
    no body and no header, and POST /joinNetwork with the JSON header and a
    body whose url is the empty string or a text the user typed earlier. *)
Theorem requests_are_peers_or_typed_joins (evs : list event) :
  Forall (fun r =>
            r = {| path := "/peers"; method := "GET"; body := None; headers := [] |} \/
            exists v,
              r = {| path := "/joinNetwork"; method := "POST";
                     body := Some (stringify {| body_url := v |});
                     headers := [("Content-Type", "application/json")] |} /\
              (v = "" \/ Change v ∈ evs))
         (requests (run initial_world evs)).
Proof.
  assert ((url (this_state (run initial_world evs)) = "" \/
           Change (url (this_state (run initial_world evs))) ∈ evs) /\
          Forall (fun r => r = peers_request \/
                           exists v, r = join_request v /\ (v = "" \/ Change v ∈ evs))
                 (requests (run initial_world evs))) as [_ H]; [|exact H].
  induction evs as [|e evs [IHu IHr]] using rev_ind.
  - split; [left; reflexivity|constructor].
  - rewrite run_snoc. set (w := run initial_world evs) in *.
    assert (forall v, v = "" \/ Change v ∈ evs -> v = "" \/ Change v ∈ evs ++ [e]) as Hmono.
    { intros v [->|Hin]; [left; reflexivity|right].
      apply elem_of_app. left. exact Hin. }
    split.
    + destruct (is_change e) eqn:Hc.
      * destruct e as [|v| |j o]; try discriminate. cbn [step].
        destruct (mounted w); [|apply Hmono, IHu].
        right. apply elem_of_app. right. left.
      * rewrite step_url by exact Hc. apply Hmono, IHu.
    + rewrite requests_step. apply Forall_app. split.
      * eapply Forall_impl; [exact IHr|]. intros r [->|(v & -> & Hv)]; [left; reflexivity|].
        right. exists v. split; [reflexivity|apply Hmono, Hv].
      * destruct e as [|v| |j o]; try constructor.
        -- destruct (mounted w); repeat constructor.
        -- destruct (mounted w); [|constructor].
           apply Forall_singleton. right. eexists. split; [reflexivity|].
           apply Hmono, IHu.
Qed.

Lemma count_joins_step (w : world) (e : event) :
  length (filter is_join_request (requests (step w e))) =
  length (filter is_join_request (requests w)) +
  (if mounted w && is_submit e then 1 else 0).
Proof.
  rewrite requests_step, filter_app, length_app.
  destruct e as [|v| |j o]; cbn [is_submit]; rewrite ?andb_false_r;
    destruct (mounted w); reflexivity.
Qed.

Lemma count_events_step (w : world) (e : event) :
  length (submit_events (step w e)) =
  length (submit_events w) + (if mounted w && is_submit e then 1 else 0).
Proof.
  destruct e as [|v| |j o]; cbn [step is_submit]; rewrite ?andb_false_r.
  - destruct (mounted w); cbn; lia.
  - destruct (mounted w); cbn; lia.
  - destruct (mounted w); cbn; rewrite ?length_app; cbn; lia.
  - rewrite settle_submit_events_length. lia.
Qed.

(** X3. Over any trace the number of POST /joinNetwork requests, and of
    submit event objects, is the number of form submissions: no submission
    is dropped, and no request is repeated, whatever the responses were. *)
Theorem one_post_per_submission (evs : list event) :
  let w := run initial_world evs in
  length (filter is_join_request (requests w)) = submissions false evs /\
  length (submit_events w) = submissions false evs.
Proof.
  cbv zeta.
  assert (forall w,
             length (filter is_join_request (requests (run w evs))) =
               length (filter is_join_request (requests w)) + submissions (mounted w) evs /\
             length (submit_events (run w evs)) =
               length (submit_events w) + submissions (mounted w) evs) as Hrun.
  { induction evs as [|e evs IH]; intros w; [cbn; lia|].
    rewrite run_cons. destruct (IH (step w e)) as [-> ->].
    rewrite count_joins_step, count_events_step, step_mounted_eq.
    cbn [submissions]. lia. }
  exact (Hrun initial_world).
Qed.

(** X7. Text typed while a join request is in flight is wiped from the
    input when the request is fulfilled, yet stays the tracked [url]: the
    next submission sends it although the input is empty. *)
Theorem typing_while_join_in_flight
    (w : world) (evs1 evs2 : list event) (v : string) (s : nat) (p : option json) :
  mounted w = true ->
  no_settle (length (fetches w)) (evs1 ++ Change v :: evs2) = true ->
  no_change evs2 = true ->
  let w1 := run (step w Submit) (evs1 ++ Change v :: evs2) in
  let w2 := step w1 (Settle (length (fetches w)) (Fulfilled s p)) in
  control w2 = "" /\
  url (this_state w2) = v /\
  sent <$> issued w2 Submit = [join_request v].
Proof.
  intros Hm Hns Hnc w1 w2.
  destruct (submitted_in_flight w Hm _ Hns) as (c & Hc & _ & Hk & Hp).
  destruct (settle_join_fulfilled w1 _ c _ s p Hc Hp Hk) as (Hst & Hctl & _).
  assert (url (this_state w1) = v) as Hv.
  { subst w1. rewrite run_app, run_cons, run_url by exact Hnc.
    apply step_change, run_mounted, step_mounted, Hm. }
  assert (url (this_state w2) = v) as Hv2.
  { subst w2. rewrite step_settle, Hst. exact Hv. }
  assert (mounted w2 = true) as Hm2.
  { subst w2 w1. apply step_mounted, run_mounted, step_mounted, Hm. }
  split; [exact Hctl|]. split; [exact Hv2|].
  rewrite (issued_submit _ Hm2), Hv2. reflexivity.
Qed.

Lemma typing_while_join_in_flight_witness :
  let w := run initial_world [Mount; Change "first"] in
  let w1 := run (step w Submit)
                ([Settle 0 Rejected] ++ Change "second" :: [Mount]) in
  let w2 := step w1 (Settle (length (fetches w)) (Fulfilled 200 None)) in
  control w2 = "" /\
  url (this_state w2) = "second" /\
  sent <$> issued w2 Submit = [join_request "second"].
Proof.
  exact (typing_while_join_in_flight
           (run initial_world [Mount; Change "first"])
           [Settle 0 Rejected] [Mount] "second" 200 None
           eq_refl eq_refl eq_refl).
Defined.

(** ** Beyond the claims: the two responses *)

Lemma step_settled_stays (w : world) (e : event) (id : nat) (c : fetch_call) :
  fetches w !! id = Some c -> pending c = false ->
  exists c', fetches (step w e) !! id = Some c' /\
             on_settle c' = on_settle c /\ pending c' = false.
Proof.
  intros Hc Hp.
  destruct (step_lookup w e id c Hc) as (c' & Hc' & _ & Hk & _).
  exists c'. split; [exact Hc'|]. split; [exact Hk|].
  destruct (step_lookup_inv w e id c' Hc') as [(c0 & Hc0 & _ & _ & Hp0)|(Hid & _)].
  - destruct (pending c'); [|reflexivity].
    destruct (Hp0 eq_refl) as [Hp1 _]. congruence.
  - apply lookup_lt_Some in Hc. lia.
Qed.

(** X5. A submit event is cancelled only by the completion callback of its
    own submission: whenever an event is found cancelled, the POST that was
    issued for it has been fulfilled and is closed. *)
Theorem cancelled_only_on_fulfilment (evs : list event) (ev : nat) :
  submit_events (run initial_world evs) !! ev = Some true ->
  exists id s p c,
    Settle id (Fulfilled s p) ∈ evs /\
    fetches (run initial_world evs) !! id = Some c /\
    on_settle c = K_join_network ev /\
    pending c = false.
Proof.
  induction evs as [|e evs IH] using rev_ind; [discriminate|].
  rewrite run_snoc. set (w := run initial_world evs) in *.
  destruct (submit_events w !! ev) as [[|]|] eqn:Eold.
  - intros _. destruct (IH eq_refl) as (id & s & p & c & Hin & Hc & Hk & Hp).
    destruct (step_settled_stays w e id c Hc Hp) as (c' & Hc' & Hk' & Hp').
    exists id, s, p, c'. split; [apply elem_of_app; left; exact Hin|].
    split; [exact Hc'|]. split; [congruence|exact Hp'].
  - destruct e as [|v| |j o]; cbn [step].
    + destruct (mounted w); cbn; congruence.
    + destruct (mounted w); cbn; congruence.
    + destruct (mounted w); cbn; [|congruence].
      rewrite lookup_snoc_Some. intros [[_ H]|[_ H]]; congruence.
    + rewrite settle_submit_events, settle_fetches.
      destruct (fetches w !! j) as [cj|] eqn:Ej; [|congruence].
      destruct (pending cj); [|congruence].
      destruct (on_settle cj) as [|evj] eqn:Ekj; [congruence|].
      destruct o as [|s p]; [congruence|].
      rewrite list_lookup_insert_Some. intros [(-> & _ & _)|(_ & H)]; [|congruence].
      exists j, s, p, (FetchCall (sent cj) (K_join_network ev) false).
      split; [apply elem_of_app; right; left|].
      split; [apply list_lookup_insert_eq, (lookup_lt_Some _ _ _ Ej)|].
      split; reflexivity.
  - destruct e as [|v| |j o]; cbn [step].
    + destruct (mounted w); cbn; congruence.
    + destruct (mounted w); cbn; congruence.
    + destruct (mounted w); cbn; [|congruence].
      rewrite lookup_snoc_Some. intros [[_ H]|[_ H]]; congruence.
    + rewrite settle_submit_events.
      destruct (fetches w !! j) as [cj|] eqn:Ej; [|congruence].
      destruct (pending cj); [|congruence].
      destruct (on_settle cj) as [|evj] eqn:Ekj; [congruence|].
      destruct o as [|s p]; [congruence|].
      rewrite list_lookup_insert_Some. intros [(-> & _ & Hlt)|(_ & H)]; [|congruence].
      apply lookup_ge_None in Eold. lia.
Qed.

Lemma cancelled_only_on_fulfilment_witness :
  exists id s p c,
    Settle id (Fulfilled s p) ∈
      [Mount; Submit; Submit; Settle 2 (Fulfilled 404 None); Settle 1 Rejected] /\
    fetches (run initial_world
               [Mount; Submit; Submit; Settle 2 (Fulfilled 404 None); Settle 1 Rejected])
      !! id = Some c /\
    on_settle c = K_join_network 1 /\
    pending c = false.
Proof.
  exact (cancelled_only_on_fulfilment
           [Mount; Submit; Submit; Settle 2 (Fulfilled 404 None); Settle 1 Rejected]
           1 eq_refl).
Defined.

(** X6. The answers to GET /peers and to a join request do not interfere:
    in whichever order the two settle, with whatever outcomes, the
    component ends in the same state, with the same page, input, events,
    log and console. *)
Theorem peers_and_join_responses_commute
    (w : world) (i j ev : nat) (ci cj : fetch_call) (oi oj : outcome) :
  fetches w !! i = Some ci ->
  fetches w !! j = Some cj ->
  on_settle ci = K_get_peers ->
  on_settle cj = K_join_network ev ->
  step (step w (Settle i oi)) (Settle j oj) =
  step (step w (Settle j oj)) (Settle i oi).
Proof.
  intros Hi Hj Hki Hkj.
  assert (i <> j) as Hne by (intros ->; congruence).
  assert (j <> i) as Hne' by congruence.
  rewrite !step_settle.
  destruct w as [m st ctl se fs con un]. cbn [fetches] in Hi, Hj.
  unfold settle at 2 4. unfold mark_settled. cbn [fetches]. rewrite Hi, Hj.
  destruct (pending ci) eqn:Epi, (pending cj) eqn:Epj; rewrite ?Hki, ?Hkj;
    case_outcome oi; destruct oj as [|sj pj];
    cbv [settle mark_settled run_callback get_peers_then join_network_then
         setState_urls console_log unhandled_rejection reset_form preventDefault
         with_state with_control with_submit_events with_fetches with_console
         with_unhandled mounted this_state control submit_events fetches console
         unhandled];
    rewrite ?(list_lookup_insert_ne fs i j), ?(list_lookup_insert_ne fs j i),
            ?Hi, ?Hj by assumption;
    rewrite ?Epi, ?Epj, ?Hki, ?Hkj;
    rewrite ?(list_lookup_insert_ne fs i j), ?(list_lookup_insert_ne fs j i),
            ?Hi, ?Hj by assumption;
    rewrite ?Epi, ?Epj, ?Hki, ?Hkj;
    try reflexivity;
    f_equal; apply list_insert_insert_ne; assumption.
Qed.

Lemma peers_and_join_responses_commute_witness :
  let w := run initial_world [Mount; Change "x"; Submit] in
  step (step w (Settle 0 (Fulfilled 200 (Some (JArr [JStr "a"])))))
       (Settle 1 (Fulfilled 500 None)) =
  step (step w (Settle 1 (Fulfilled 500 None)))
       (Settle 0 (Fulfilled 200 (Some (JArr [JStr "a"])))).
Proof.
  exact (peers_and_join_responses_commute
           (run initial_world [Mount; Change "x"; Submit]) 0 1 0
           (FetchCall peers_request K_get_peers true)
           (FetchCall (join_request "x") (K_join_network 0) true)
           (Fulfilled 200 (Some (JArr [JStr "a"]))) (Fulfilled 500 None)
           eq_refl eq_refl eq_refl eq_refl).
Defined.

(** ** Beyond the claims: the peer list is loaded once *)

Lemma quiet_tail (w : world) (e : event) (evs : list event) :
  mounted w = true -> quiet w (e :: evs) -> quiet (step w e) evs.
Proof.
  intros Hm Hq id c' Hc' Hp' Hr'.
  destruct (step_lookup_inv w e id c' Hc')
    as [(c & Hc & Hs & _ & Hp)|(Hid & [[-> ->]|[-> ->]])].
  - destruct (Hp Hp') as [Hpc _]. rewrite <- Hs in Hr'.
    pose proof (Hq id c Hc Hpc Hr') as H. cbn [no_settle forallb] in H.
    apply andb_prop in H as [_ H]. exact H.
  - cbn [step] in Hc'. rewrite Hm in Hc'.
    rewrite lookup_ge_None_2 in Hc' by lia. discriminate.
  - discriminate.
Qed.

Lemma quiet_no_response (evs : list event) (w : world) :
  mounted w = true -> quiet w evs -> responses w evs = [].
Proof.
  revert w. induction evs as [|e evs IH]; intros w Hm Hq; [reflexivity|].
  cbn [responses]. rewrite IH by (apply step_mounted, Hm || apply quiet_tail; assumption).
  rewrite app_nil_r.
  destruct e as [|v| |j o]; try reflexivity.
  destruct o as [|s [d|]]; try reflexivity. cbn [delivers].
  destruct (fetches w !! j) as [c|] eqn:E; [|reflexivity].
  destruct (pending c) eqn:Ep; [|reflexivity].
  destruct (is_peers_request (sent c)) eqn:Er; [|reflexivity].
  pose proof (Hq j c E Ep Er) as H. cbn in H. rewrite Nat.eqb_refl in H. discriminate.
Qed.

Lemma peers_call_first_step (w : world) (e : event) :
  mounted w = true -> peers_call_first w -> peers_call_first (step w e).
Proof.
  intros Hm Hf id c' Hc' Hr'.
  destruct (step_lookup_inv w e id c' Hc')
    as [(c & Hc & Hs & _ & _)|(Hid & [[-> ->]|[-> ->]])].
  - rewrite <- Hs in Hr'. exact (Hf id c Hc Hr').
  - cbn [step] in Hc'. rewrite Hm in Hc'.
    rewrite lookup_ge_None_2 in Hc' by lia. discriminate.
  - discriminate.
Qed.

Lemma peers_call_first_run (evs : list event) (w : world) :
  mounted w = true -> peers_call_first w -> peers_call_first (run w evs).
Proof.
  revert w. induction evs as [|e evs IH]; intros w Hm Hf; [exact Hf|].
  rewrite run_cons. apply IH; [apply step_mounted, Hm|apply peers_call_first_step; assumption].
Qed.

Lemma peers_call_first_mount : peers_call_first (step initial_world Mount).
Proof.
  intros [|id] c Hc _; [reflexivity|]. cbn in Hc. discriminate.
Qed.

(** X10. The peer list is loaded once.  Whatever ends the GET /peers call
    issued at mount settles [urls] for good: the delivered body if there is
    one, the empty list if the fetch was rejected or the body was not JSON.
    No later event, no join, no further response, changes it: there is no
    retry and no refresh. *)
Theorem peers_loaded_once (evs1 evs2 : list event) (o : outcome) :
  no_settle 0 evs1 = true ->
  let w := run initial_world (Mount :: evs1 ++ Settle 0 o :: evs2) in
  urls (this_state w) =
    match o with
    | Fulfilled _ (Some data) => data
    | _ => JArr []
    end /\
  responses initial_world (Mount :: evs1 ++ Settle 0 o :: evs2) =
    match o with
    | Fulfilled _ (Some data) => [data]
    | _ => []
    end.
Proof.
  intros Hns. cbv zeta.
  set (w0 := step initial_world Mount).
  set (w1 := run w0 evs1).
  assert (mounted w1 = true) as Hm1 by (apply run_mounted; reflexivity).
  assert (peers_call_first w1) as Hf1
    by (apply peers_call_first_run; [reflexivity|exact peers_call_first_mount]).
  assert (responses w0 evs1 = []) as Hr1.
  { apply quiet_no_response; [reflexivity|].
    intros id c Hc _ Hr. rewrite (peers_call_first_mount id c Hc Hr). exact Hns. }
  destruct (mounted_in_flight evs1 Hns) as (c & Hc & Hs & Hk & Hp).
  fold w0 in Hc. fold w1 in Hc.
  assert (responses (step w1 (Settle 0 o)) evs2 = []) as Hr2.
  { apply quiet_no_response; [apply step_mounted, Hm1|].
    intros id c' Hc' Hp' Hr'.
    pose proof (peers_call_first_step w1 (Settle 0 o) Hm1 Hf1 id c' Hc' Hr') as ->.
    destruct (step_lookup_inv w1 (Settle 0 o) 0 c' Hc')
      as [(c0 & _ & _ & _ & H)|(Hid & _)].
    - destruct (H Hp') as [_ H']. discriminate.
    - apply lookup_lt_Some in Hc. lia. }
  assert (responses initial_world (Mount :: evs1 ++ Settle 0 o :: evs2) =
          option_list (delivers w1 (Settle 0 o))) as Hall.
  { cbn [responses]. fold w0. rewrite responses_app. fold w1.
    cbn [responses]. rewrite Hr1, Hr2, app_nil_r. reflexivity. }
  assert (delivers w1 (Settle 0 o) =
          match o with Fulfilled _ (Some data) => Some data | _ => None end) as Hd.
  { cbn [delivers]. rewrite Hc, Hp, Hs. reflexivity. }
  split.
  - rewrite (run_urls _ initial_world wf_initial), Hall, Hd.
    destruct o as [|s [d|]]; reflexivity.
  - rewrite Hall, Hd. destruct o as [|s [d|]]; reflexivity.
Qed.

Lemma peers_loaded_once_witness :
  let w := run initial_world
               (Mount :: [Change "x"; Submit] ++
                Settle 0 Rejected ::
                  [Settle 1 (Fulfilled 200 None); Mount;
                   Settle 0 (Fulfilled 200 (Some (JArr [JStr "late"])))]) in
  urls (this_state w) = JArr [] /\
  responses initial_world
    (Mount :: [Change "x"; Submit] ++
     Settle 0 Rejected ::
       [Settle 1 (Fulfilled 200 None); Mount;
        Settle 0 (Fulfilled 200 (Some (JArr [JStr "late"])))]) = [].
Proof.
  exact (peers_loaded_once [Change "x"; Submit]
           [Settle 1 (Fulfilled 200 None); Mount;
            Settle 0 (Fulfilled 200 (Some (JArr [JStr "late"])))]
           Rejected eq_refl).
Defined.

(** X11. Typing and the answer to GET /peers do not interfere: a change
    event and the settling of the /peers call give the same state, page and
    input in either order. *)
Theorem typing_and_peers_response_commute
    (w : world) (i : nat) (ci : fetch_call) (v : string) (o : outcome) :
  fetches w !! i = Some ci ->
  on_settle ci = K_get_peers ->
  step (step w (Change v)) (Settle i o) = step (step w (Settle i o)) (Change v).
Proof.
  intros Hi Hk.
  destruct w as [m st ctl se fs con un]. cbn [fetches] in Hi.
  cbn [step]. rewrite settle_mounted. cbn [mounted].
  destruct m;
    cbv [settle mark_settled run_callback get_peers_then join_network_then
         onChange setState_url setState_urls console_log unhandled_rejection
         with_state with_control with_submit_events with_fetches with_console
         with_unhandled mounted this_state control submit_events fetches console
         unhandled urls url];
    rewrite Hi; destruct (pending ci); rewrite ?Hk; case_outcome o; reflexivity.
Qed.

Lemma typing_and_peers_response_commute_witness :
  let w := run initial_world [Mount; Change "x"; Submit] in
  step (step w (Change "xy")) (Settle 0 (Fulfilled 200 (Some (JArr [JStr "a"])))) =
  step (step w (Settle 0 (Fulfilled 200 (Some (JArr [JStr "a"]))))) (Change "xy").
Proof.
  exact (typing_and_peers_response_commute
           (run initial_world [Mount; Change "x"; Submit]) 0
           (FetchCall peers_request K_get_peers true) "xy"
           (Fulfilled 200 (Some (JArr [JStr "a"]))) eq_refl eq_refl).
Defined.
